(** * CASPR, Arduino Nano servo interface: calibration header [servo_04.h]

    Source: [src/HardwareInterface/Arduino/interface_code/nano_code/
    servo_properties/servo_04.h].

    The header is a list of object-like macros.  Each macro is embedded as a
    constant of the same name whose body is the macro's replacement list,
    evaluated with the arithmetic of the C type [int] of the target (the
    ATmega328P of the Arduino Nano: 16 bits, two's complement). *)

From Stdlib Require Import ZArith QArith Qabs Lia Lqa List Bool.
From Stdlib Require String.
Import String.StringSyntax.
Delimit Scope string_scope with string.
Import ListNotations.
Local Open Scope Z_scope.

(** ** The C type [int] on the target *)

Module CInt.

Definition bits : Z := 16.
Definition modulus : Z := 2 ^ bits.
Definition half_modulus : Z := 2 ^ (bits - 1).
Definition INT_MIN : Z := - half_modulus.
Definition INT_MAX : Z := half_modulus - 1.

(** Reduction of a mathematical integer to the representable range. *)
Definition wrap (z : Z) : Z := (z + half_modulus) mod modulus - half_modulus.

Definition in_range (z : Z) : bool := (INT_MIN <=? z) && (z <=? INT_MAX).

(** An unsuffixed decimal literal. *)
Definition lit (z : Z) : Z := wrap z.

Definition add (a b : Z) : Z := wrap (a + b).
Definition sub (a b : Z) : Z := wrap (a - b).
Definition neg (a : Z) : Z := wrap (- a).
(** C division truncates towards zero. *)
Definition div (a b : Z) : Z := wrap (Z.quot a b).

End CInt.

(** ** The macros of [servo_04.h], in source order *)

Definition NANO_ID : Z := CInt.lit 4.
Definition FEEDBACK_PWM_MIN : Z := CInt.lit 504.
Definition FEEDBACK_PWM_MAX : Z := CInt.lit 1509.
Definition FEEDBACK_PWM_MIDDLE : Z :=
  CInt.div (CInt.add FEEDBACK_PWM_MAX FEEDBACK_PWM_MIN) (CInt.lit 2).
Definition COMMAND_PWM_MIN : Z := CInt.lit 491.
Definition COMMAND_PWM_MAX : Z := CInt.lit 1495.
Definition COMMAND_PWM_RANGE : Z := CInt.sub COMMAND_PWM_MAX COMMAND_PWM_MIN.

Definition CLOCKWISE_PWM_MIN : Z := CInt.lit 2094.
Definition CLOCKWISE_PWM_MAX : Z := CInt.lit 2194.
Definition CLOCKWISE_SPEED_MIN : Z := CInt.lit 130.
Definition CLOCKWISE_SPEED_MAX : Z := CInt.lit 283.
Definition ANTICLOCKWISE_PWM_MIN : Z := CInt.lit 1891.
Definition ANTICLOCKWISE_PWM_MAX : Z := CInt.lit 1800.
Definition ANTICLOCKWISE_SPEED_MIN : Z := CInt.neg (CInt.lit 133).
Definition ANTICLOCKWISE_SPEED_MAX : Z := CInt.neg (CInt.lit 281).

(** ** The calibration record read off the header *)

Record ServoCalibration : Type := mkServoCalibration {
  id : Z;
  feedbackPwmMin : Z;
  feedbackPwmMax : Z;
  feedbackPwmMiddle : Z;
  commandPwmMin : Z;
  commandPwmMax : Z;
  commandPwmRange : Z;
  clockwisePwmMin : Z;
  clockwisePwmMax : Z;
  clockwiseSpeedMin : Z;
  clockwiseSpeedMax : Z;
  anticlockwisePwmMin : Z;
  anticlockwisePwmMax : Z;
  anticlockwiseSpeedMin : Z;
  anticlockwiseSpeedMax : Z
}.

Definition servo_04 : ServoCalibration := {|
  id := NANO_ID;
  feedbackPwmMin := FEEDBACK_PWM_MIN;
  feedbackPwmMax := FEEDBACK_PWM_MAX;
  feedbackPwmMiddle := FEEDBACK_PWM_MIDDLE;
  commandPwmMin := COMMAND_PWM_MIN;
  commandPwmMax := COMMAND_PWM_MAX;
  commandPwmRange := COMMAND_PWM_RANGE;
  clockwisePwmMin := CLOCKWISE_PWM_MIN;
  clockwisePwmMax := CLOCKWISE_PWM_MAX;
  clockwiseSpeedMin := CLOCKWISE_SPEED_MIN;
  clockwiseSpeedMax := CLOCKWISE_SPEED_MAX;
  anticlockwisePwmMin := ANTICLOCKWISE_PWM_MIN;
  anticlockwisePwmMax := ANTICLOCKWISE_PWM_MAX;
  anticlockwiseSpeedMin := ANTICLOCKWISE_SPEED_MIN;
  anticlockwiseSpeedMax := ANTICLOCKWISE_SPEED_MAX
|}.

(** ** Intervals of the record *)

(** Closed interval between two endpoints given in either order. *)
Definition between (a b x : Z) : bool :=
  (Z.min a b <=? x) && (x <=? Z.max a b).

Inductive PwmInterval : Type := Command | Anticlockwise | Clockwise.

Definition pwm_endpoints (c : ServoCalibration) (i : PwmInterval) : Z * Z :=
  match i with
  | Command => (commandPwmMin c, commandPwmMax c)
  | Anticlockwise => (anticlockwisePwmMin c, anticlockwisePwmMax c)
  | Clockwise => (clockwisePwmMin c, clockwisePwmMax c)
  end.

Definition in_pwm_interval (c : ServoCalibration) (i : PwmInterval) (p : Z) : bool :=
  between (fst (pwm_endpoints c i)) (snd (pwm_endpoints c i)) p.

Definition pwm_intervals : list PwmInterval := [Command; Anticlockwise; Clockwise].

(** The intervals of the record that contain a PWM value. *)
Definition pwm_intervals_of (c : ServoCalibration) (p : Z) : list PwmInterval :=
  filter (fun i => in_pwm_interval c i p) pwm_intervals.

(** ** Conversion functions over the record

    The header holds data only; the conversions that read it live in the
    Nano sketch, which is not among the sources at hand. *)

Inductive error : Type := OutOfCalibratedRange.

Inductive result (A : Type) : Type :=
| Ok (a : A)
| Err (e : error).
Arguments Ok {A} a.
Arguments Err {A} e.

(** Linear interpolation of [x] from the input span [in_a .. in_b] onto the
    output span [out_a .. out_b], in integer arithmetic: multiply first, then
    divide with truncation towards zero. *)
Definition interpolate (in_a in_b out_a out_b x : Z) : Z :=
  out_a + Z.quot ((x - in_a) * (out_b - out_a)) (in_b - in_a).

(** The same interpolation carried out over the rationals. *)
Definition interpolateQ (in_a in_b out_a out_b : Z) (x : Q) : Q :=
  (inject_Z out_a
   + (x - inject_Z in_a) * inject_Z (out_b - out_a) / inject_Z (in_b - in_a))%Q.

(** The input span and the output span of an interpolation run the same
    way: both upwards or both downwards. *)
Definition same_way (a b c d : Z) : Prop :=
  (a < b /\ c <= d) \/ (b < a /\ d <= c).

(** Modelled from the spec: [feedbackPwmToPosition] is missing from the
    sources.  It maps a raw feedback PWM sample linearly onto the normalized
    position range, with [feedbackPwmMin] and [feedbackPwmMax] as the extremes
    0 and 1; a sample outside [feedbackPwmMin .. feedbackPwmMax] is reported
    as [OutOfCalibratedRange]. *)
Definition feedbackPwmToPosition (c : ServoCalibration) (pwm : Z) : result Q :=
  if (feedbackPwmMin c <=? pwm) && (pwm <=? feedbackPwmMax c)
  then Ok (interpolateQ (feedbackPwmMin c) (feedbackPwmMax c) 0 1 (inject_Z pwm))
  else Err OutOfCalibratedRange.

Inductive Direction : Type := CW | ACW.

(** Band selection of [speedToCommandPwm]: by the sign of the speed.  Speed
    zero has no sign and selects no band. *)
Definition band_of_sign (s : Z) : option Direction :=
  if 0 <? s then Some CW
  else if s <? 0 then Some ACW
  else None.

Definition in_speed_band (c : ServoCalibration) (d : Direction) (s : Z) : bool :=
  match d with
  | CW => between (clockwiseSpeedMin c) (clockwiseSpeedMax c) s
  | ACW => between (anticlockwiseSpeedMin c) (anticlockwiseSpeedMax c) s
  end.

Definition in_pwm_band (c : ServoCalibration) (d : Direction) (p : Z) : bool :=
  match d with
  | CW => in_pwm_interval c Clockwise p
  | ACW => in_pwm_interval c Anticlockwise p
  end.

Definition speed_to_pwm (c : ServoCalibration) (d : Direction) (s : Z) : Z :=
  match d with
  | CW => interpolate (clockwiseSpeedMin c) (clockwiseSpeedMax c)
                      (clockwisePwmMin c) (clockwisePwmMax c) s
  | ACW => interpolate (anticlockwiseSpeedMin c) (anticlockwiseSpeedMax c)
                       (anticlockwisePwmMin c) (anticlockwisePwmMax c) s
  end.

Definition pwm_to_speed (c : ServoCalibration) (d : Direction) (p : Z) : Z :=
  match d with
  | CW => interpolate (clockwisePwmMin c) (clockwisePwmMax c)
                      (clockwiseSpeedMin c) (clockwiseSpeedMax c) p
  | ACW => interpolate (anticlockwisePwmMin c) (anticlockwisePwmMax c)
                       (anticlockwiseSpeedMin c) (anticlockwiseSpeedMax c) p
  end.

(** Modelled from the spec: [speedToCommandPwm] is missing from the sources.
    Given a signed speed it selects the clockwise or the anticlockwise band by
    sign, then interpolates linearly from that band's speed bounds to its PWM
    bounds (minimum to minimum, maximum to maximum, which keeps the reversed
    PWM order of the anticlockwise band).  Speed zero maps to the neutral
    command PWM; its value is not in the header and is supplied by the
    integrator, here the parameter [neutral].  The record defines no deadband
    around the neutral command, so zero is the only speed mapped to it.  A
    speed of either sign outside the band of its sign is reported as
    [OutOfCalibratedRange]. *)
Definition speedToCommandPwm (c : ServoCalibration) (neutral : Z) (speed : Z)
    : result Z :=
  match band_of_sign speed with
  | Some d =>
      if in_speed_band c d speed then Ok (speed_to_pwm c d speed)
      else Err OutOfCalibratedRange
  | None => Ok neutral
  end.

(** Band selection of [commandPwmToSpeed]: by the PWM interval the sample
    falls into. *)
Definition band_of_pwm (c : ServoCalibration) (p : Z) : option Direction :=
  if in_pwm_band c CW p then Some CW
  else if in_pwm_band c ACW p then Some ACW
  else None.

(** Modelled from the spec: [commandPwmToSpeed] is missing from the sources.
    It is the inverse of [speedToCommandPwm]: the band is the one whose PWM
    interval holds the sample, and the interpolation runs from that band's
    PWM bounds to its speed bounds.  A sample outside every band is reported
    as [OutOfCalibratedRange]. *)
Definition commandPwmToSpeed (c : ServoCalibration) (pwm : Z) : result Z :=
  match band_of_pwm c pwm with
  | Some d => Ok (pwm_to_speed c d pwm)
  | None => Err OutOfCalibratedRange
  end.

(** ** The speed conversions over the rationals

    The same two conversions with the interpolation carried out exactly:
    same bands, same selection, [interpolateQ] in place of [interpolate]. *)

Definition betweenQ (a b : Z) (x : Q) : bool :=
  Qle_bool (inject_Z (Z.min a b)) x && Qle_bool x (inject_Z (Z.max a b)).

Definition band_of_signQ (s : Q) : option Direction :=
  if negb (Qle_bool s 0) then Some CW
  else if negb (Qle_bool 0 s) then Some ACW
  else None.

Definition in_speed_bandQ (c : ServoCalibration) (d : Direction) (s : Q) : bool :=
  match d with
  | CW => betweenQ (clockwiseSpeedMin c) (clockwiseSpeedMax c) s
  | ACW => betweenQ (anticlockwiseSpeedMin c) (anticlockwiseSpeedMax c) s
  end.

Definition in_pwm_bandQ (c : ServoCalibration) (d : Direction) (p : Q) : bool :=
  match d with
  | CW => betweenQ (clockwisePwmMin c) (clockwisePwmMax c) p
  | ACW => betweenQ (anticlockwisePwmMin c) (anticlockwisePwmMax c) p
  end.

Definition speed_to_pwmQ (c : ServoCalibration) (d : Direction) (s : Q) : Q :=
  match d with
  | CW => interpolateQ (clockwiseSpeedMin c) (clockwiseSpeedMax c)
                       (clockwisePwmMin c) (clockwisePwmMax c) s
  | ACW => interpolateQ (anticlockwiseSpeedMin c) (anticlockwiseSpeedMax c)
                        (anticlockwisePwmMin c) (anticlockwisePwmMax c) s
  end.

Definition pwm_to_speedQ (c : ServoCalibration) (d : Direction) (p : Q) : Q :=
  match d with
  | CW => interpolateQ (clockwisePwmMin c) (clockwisePwmMax c)
                       (clockwiseSpeedMin c) (clockwiseSpeedMax c) p
  | ACW => interpolateQ (anticlockwisePwmMin c) (anticlockwisePwmMax c)
                        (anticlockwiseSpeedMin c) (anticlockwiseSpeedMax c) p
  end.

(** Modelled from the spec: [speedToCommandPwm], missing from the sources,
    with the linear interpolation carried out over the rationals.  As there,
    speed zero maps to the neutral command PWM [neutral] that the integrator
    supplies. *)
Definition speedToCommandPwmQ (c : ServoCalibration) (neutral : Z) (speed : Q)
    : result Q :=
  match band_of_signQ speed with
  | Some d =>
      if in_speed_bandQ c d speed then Ok (speed_to_pwmQ c d speed)
      else Err OutOfCalibratedRange
  | None => Ok (inject_Z neutral)
  end.

Definition band_of_pwmQ (c : ServoCalibration) (p : Q) : option Direction :=
  if in_pwm_bandQ c CW p then Some CW
  else if in_pwm_bandQ c ACW p then Some ACW
  else None.

(** Modelled from the spec: [commandPwmToSpeed], missing from the sources,
    with the linear interpolation carried out over the rationals. *)
Definition commandPwmToSpeedQ (c : ServoCalibration) (pwm : Q) : result Q :=
  match band_of_pwmQ c pwm with
  | Some d => Ok (pwm_to_speedQ c d pwm)
  | None => Err OutOfCalibratedRange
  end.

(** The data-model invariant on the feedback bounds. *)
Definition feedback_ordered (c : ServoCalibration) : Prop :=
  feedbackPwmMin c < feedbackPwmMax c.

(** ** The derived macros as functions of the bounds they name

    The replacement lists of [FEEDBACK_PWM_MIDDLE] and [COMMAND_PWM_RANGE]
    name the bound macros; read as functions of these bounds they are the
    same for every header of the [servo_properties] directory. *)

Definition pwm_middle (lo hi : Z) : Z :=
  CInt.div (CInt.add hi lo) (CInt.lit 2).

Definition pwm_range (lo hi : Z) : Z := CInt.sub hi lo.

(** The calibration points of the two bands, as (speed, PWM) pairs: each
    speed macro with the PWM macro of the same band and the same suffix. *)
Definition calibration_points : list (Z * Z) :=
  [ (ANTICLOCKWISE_SPEED_MAX, ANTICLOCKWISE_PWM_MAX);
    (ANTICLOCKWISE_SPEED_MIN, ANTICLOCKWISE_PWM_MIN);
    (CLOCKWISE_SPEED_MIN, CLOCKWISE_PWM_MIN);
    (CLOCKWISE_SPEED_MAX, CLOCKWISE_PWM_MAX) ].

(** The integers from [a], [n] of them. *)
Definition Z_range (a : Z) (n : nat) : list Z :=
  map (fun k => a + Z.of_nat k) (seq 0 n).

(** ** The header as the preprocessor sees it

    Each [#define] directive is a macro name and its replacement list, a
    sequence of preprocessing tokens. *)

Inductive token : Type :=
| TNum (n : Z)
| TId (x : String.string)
| TPlus
| TMinus
| TStar
| TSlash
| TLParen
| TRParen.

Definition directive : Type := (String.string * list token)%type.

(** The fifteen directives of [servo_04.h], in source order. *)
Definition servo_04_h : list directive :=
  [ ("NANO_ID"%string, [TNum 4]);
    ("FEEDBACK_PWM_MIN"%string, [TNum 504]);
    ("FEEDBACK_PWM_MAX"%string, [TNum 1509]);
    ("FEEDBACK_PWM_MIDDLE"%string,
      [TLParen; TLParen; TId "FEEDBACK_PWM_MAX"%string; TPlus;
       TId "FEEDBACK_PWM_MIN"%string;
       TRParen; TSlash; TNum 2; TRParen]);
    ("COMMAND_PWM_MIN"%string, [TNum 491]);
    ("COMMAND_PWM_MAX"%string, [TNum 1495]);
    ("COMMAND_PWM_RANGE"%string,
      [TLParen; TId "COMMAND_PWM_MAX"%string; TMinus;
       TId "COMMAND_PWM_MIN"%string; TRParen]);
    ("CLOCKWISE_PWM_MIN"%string, [TNum 2094]);
    ("CLOCKWISE_PWM_MAX"%string, [TNum 2194]);
    ("CLOCKWISE_SPEED_MIN"%string, [TNum 130]);
    ("CLOCKWISE_SPEED_MAX"%string, [TNum 283]);
    ("ANTICLOCKWISE_PWM_MIN"%string, [TNum 1891]);
    ("ANTICLOCKWISE_PWM_MAX"%string, [TNum 1800]);
    ("ANTICLOCKWISE_SPEED_MIN"%string, [TMinus; TNum 133]);
    ("ANTICLOCKWISE_SPEED_MAX"%string, [TMinus; TNum 281]) ].

Definition macro_names (ds : list directive) : list String.string :=
  map fst ds.

(** The replacement list of a macro name, if the header defines it. *)
Fixpoint replacement (ds : list directive) (x : String.string)
    : option (list token) :=
  match ds with
  | [] => None
  | (y, body) :: rest =>
      if String.eqb x y then Some body else replacement rest x
  end.

(** Macro replacement with rescanning: an identifier that names a macro is
    replaced by its replacement list, which is scanned again for macro names;
    a name under replacement ([hide]) is not replaced again. *)
Fixpoint expand_token (ds : list directive) (fuel : nat)
    (hide : list String.string)
    (t : token) : list token :=
  match t with
  | TId x =>
      if existsb (String.eqb x) hide then [t]
      else
        match replacement ds x with
        | None => [t]
        | Some body =>
            match fuel with
            | O => [t]
            | S fuel' => flat_map (expand_token ds fuel' (x :: hide)) body
            end
        end
  | _ => [t]
  end.

(** Nesting is bounded by the number of directives, since each level hides
    one more macro name. *)
Definition expand (ds : list directive) (ts : list token) : list token :=
  flat_map (expand_token ds (List.length ds) []) ts.

Definition is_identifier (t : token) : bool :=
  match t with TId _ => true | _ => false end.

Definition CInt_mul (a b : Z) : Z := CInt.wrap (a * b).

(** Evaluation of a token sequence as a C integer constant expression of
    type [int], by recursive descent on the C grammar:
    additive := multiplicative (('+' | '-') multiplicative)*,
    multiplicative := unary (('*' | '/') unary)*,
    unary := ('-' | '+') unary | primary,
    primary := constant | '(' additive ')'.
    Each function returns the value and the tokens left over.  A constant
    that does not fit [int] and a division by zero have no value here. *)
Fixpoint additive (fuel : nat) (ts : list token) : option (Z * list token) :=
  match fuel with
  | O => None
  | S fuel' =>
      match multiplicative fuel' ts with
      | Some (v, rest) => additive_rest fuel' v rest
      | None => None
      end
  end
with additive_rest (fuel : nat) (acc : Z) (ts : list token)
    : option (Z * list token) :=
  match fuel with
  | O => None
  | S fuel' =>
      match ts with
      | TPlus :: rest =>
          match multiplicative fuel' rest with
          | Some (v, rest') => additive_rest fuel' (CInt.add acc v) rest'
          | None => None
          end
      | TMinus :: rest =>
          match multiplicative fuel' rest with
          | Some (v, rest') => additive_rest fuel' (CInt.sub acc v) rest'
          | None => None
          end
      | _ => Some (acc, ts)
      end
  end
with multiplicative (fuel : nat) (ts : list token) : option (Z * list token) :=
  match fuel with
  | O => None
  | S fuel' =>
      match unary fuel' ts with
      | Some (v, rest) => multiplicative_rest fuel' v rest
      | None => None
      end
  end
with multiplicative_rest (fuel : nat) (acc : Z) (ts : list token)
    : option (Z * list token) :=
  match fuel with
  | O => None
  | S fuel' =>
      match ts with
      | TStar :: rest =>
          match unary fuel' rest with
          | Some (v, rest') => multiplicative_rest fuel' (CInt_mul acc v) rest'
          | None => None
          end
      | TSlash :: rest =>
          match unary fuel' rest with
          | Some (v, rest') =>
              if v =? 0 then None
              else multiplicative_rest fuel' (CInt.div acc v) rest'
          | None => None
          end
      | _ => Some (acc, ts)
      end
  end
with unary (fuel : nat) (ts : list token) : option (Z * list token) :=
  match fuel with
  | O => None
  | S fuel' =>
      match ts with
      | TMinus :: rest =>
          match unary fuel' rest with
          | Some (v, rest') => Some (CInt.neg v, rest')
          | None => None
          end
      | TPlus :: rest => unary fuel' rest
      | _ => primary fuel' ts
      end
  end
with primary (fuel : nat) (ts : list token) : option (Z * list token) :=
  match fuel with
  | O => None
  | S fuel' =>
      match ts with
      | TNum n :: rest =>
          if CInt.in_range n then Some (CInt.lit n, rest) else None
      | TLParen :: rest =>
          match additive fuel' rest with
          | Some (v, TRParen :: rest') => Some (v, rest')
          | _ => None
          end
      | _ => None
      end
  end.

(** Fuel that covers every descent on a token sequence: each token is the
    head of at most six nested calls, and six more close the descent. *)
Definition fuel_for (ts : list token) : nat := 6 * List.length ts + 6.

(** The value of a complete expression: all tokens are consumed. *)
Definition eval_tokens (ts : list token) : option Z :=
  match additive (fuel_for ts) ts with
  | Some (v, []) => Some v
  | _ => None
  end.

(** The value of an expression written with the macros of [servo_04.h]:
    macro replacement, then evaluation. *)
Definition eval_with_header (ts : list token) : option Z :=
  eval_tokens (expand servo_04_h ts).

(** The constant that embeds each macro, by macro name. *)
Definition embedded_macros : list (String.string * Z) :=
  [ ("NANO_ID"%string, NANO_ID);
    ("FEEDBACK_PWM_MIN"%string, FEEDBACK_PWM_MIN);
    ("FEEDBACK_PWM_MAX"%string, FEEDBACK_PWM_MAX);
    ("FEEDBACK_PWM_MIDDLE"%string, FEEDBACK_PWM_MIDDLE);
    ("COMMAND_PWM_MIN"%string, COMMAND_PWM_MIN);
    ("COMMAND_PWM_MAX"%string, COMMAND_PWM_MAX);
    ("COMMAND_PWM_RANGE"%string, COMMAND_PWM_RANGE);
    ("CLOCKWISE_PWM_MIN"%string, CLOCKWISE_PWM_MIN);
    ("CLOCKWISE_PWM_MAX"%string, CLOCKWISE_PWM_MAX);
    ("CLOCKWISE_SPEED_MIN"%string, CLOCKWISE_SPEED_MIN);
    ("CLOCKWISE_SPEED_MAX"%string, CLOCKWISE_SPEED_MAX);
    ("ANTICLOCKWISE_PWM_MIN"%string, ANTICLOCKWISE_PWM_MIN);
    ("ANTICLOCKWISE_PWM_MAX"%string, ANTICLOCKWISE_PWM_MAX);
    ("ANTICLOCKWISE_SPEED_MIN"%string, ANTICLOCKWISE_SPEED_MIN);
    ("ANTICLOCKWISE_SPEED_MAX"%string, ANTICLOCKWISE_SPEED_MAX) ].

Inductive binop : Type := OpAdd | OpSub | OpMul | OpDiv.

Definition binop_token (o : binop) : token :=
  match o with
  | OpAdd => TPlus
  | OpSub => TMinus
  | OpMul => TStar
  | OpDiv => TSlash
  end.

Definition binop_int (o : binop) (a b : Z) : Z :=
  match o with
  | OpAdd => CInt.add a b
  | OpSub => CInt.sub a b
  | OpMul => CInt_mul a b
  | OpDiv => CInt.div a b
  end.

(** * Properties *)

(** ** Arithmetic of [int] *)

Lemma wrap_exact (z : Z) :
  CInt.INT_MIN <= z <= CInt.INT_MAX -> CInt.wrap z = z.
Proof.
  unfold CInt.INT_MIN, CInt.INT_MAX, CInt.wrap. intros Hz.
  rewrite Z.mod_small; [ring|].
  change CInt.half_modulus with 32768 in *.
  change CInt.modulus with 65536. lia.
Qed.

Lemma in_range_exact (z : Z) :
  CInt.in_range z = true -> CInt.wrap z = z.
Proof.
  unfold CInt.in_range. intros H.
  apply andb_true_iff in H as [H1 H2].
  apply wrap_exact. split; [now apply Z.leb_le | now apply Z.leb_le].
Qed.

(** Every macro of the header stays inside the range of [int]: no literal
    and no intermediate value of the two derived macros wraps around. *)
Lemma servo_04_values :
  servo_04 =
  mkServoCalibration 4 504 1509 1006 491 1495 1004
                     2094 2194 130 283 1891 1800 (-133) (-281).
Proof.
  unfold servo_04, NANO_ID, FEEDBACK_PWM_MIDDLE, COMMAND_PWM_RANGE,
    FEEDBACK_PWM_MIN, FEEDBACK_PWM_MAX, COMMAND_PWM_MIN, COMMAND_PWM_MAX,
    CLOCKWISE_PWM_MIN, CLOCKWISE_PWM_MAX, CLOCKWISE_SPEED_MIN,
    CLOCKWISE_SPEED_MAX, ANTICLOCKWISE_PWM_MIN, ANTICLOCKWISE_PWM_MAX,
    ANTICLOCKWISE_SPEED_MIN, ANTICLOCKWISE_SPEED_MAX,
    CInt.lit, CInt.add, CInt.sub, CInt.neg, CInt.div.
  repeat (rewrite in_range_exact by reflexivity).
  reflexivity.
Qed.

(** ** The derived macros *)

(** C1.  [FEEDBACK_PWM_MIDDLE] is the integer quotient (truncating, as C
    divides) of [FEEDBACK_PWM_MIN + FEEDBACK_PWM_MAX] by 2; with the bounds
    504 and 1509 of this header it is exactly 1006. *)
Theorem C1_feedback_pwm_middle :
  FEEDBACK_PWM_MIDDLE = Z.quot (FEEDBACK_PWM_MIN + FEEDBACK_PWM_MAX) 2
  /\ FEEDBACK_PWM_MIN = 504
  /\ FEEDBACK_PWM_MAX = 1509
  /\ FEEDBACK_PWM_MIDDLE = 1006
  /\ feedbackPwmMiddle servo_04 = 1006.
Proof.
  assert (Hmin : FEEDBACK_PWM_MIN = 504) by (apply in_range_exact; reflexivity).
  assert (Hmax : FEEDBACK_PWM_MAX = 1509) by (apply in_range_exact; reflexivity).
  assert (Hmid : FEEDBACK_PWM_MIDDLE = Z.quot (FEEDBACK_PWM_MIN + FEEDBACK_PWM_MAX) 2).
  { unfold FEEDBACK_PWM_MIDDLE, CInt.div, CInt.add, CInt.lit.
    rewrite Hmin, Hmax, (Z.add_comm 1509 504).
    now repeat (rewrite in_range_exact by reflexivity). }
  assert (Hval : FEEDBACK_PWM_MIDDLE = 1006)
    by (rewrite Hmid, Hmin, Hmax; reflexivity).
  exact (conj Hmid (conj Hmin (conj Hmax (conj Hval Hval)))).
Qed.

(** C2.  [COMMAND_PWM_RANGE] is [COMMAND_PWM_MAX - COMMAND_PWM_MIN]; with the
    bounds 491 and 1495 of this header it is exactly 1004. *)
Theorem C2_command_pwm_range :
  COMMAND_PWM_RANGE = COMMAND_PWM_MAX - COMMAND_PWM_MIN
  /\ COMMAND_PWM_MIN = 491
  /\ COMMAND_PWM_MAX = 1495
  /\ COMMAND_PWM_RANGE = 1004
  /\ commandPwmRange servo_04 = 1004.
Proof.
  assert (Hmin : COMMAND_PWM_MIN = 491) by (apply in_range_exact; reflexivity).
  assert (Hmax : COMMAND_PWM_MAX = 1495) by (apply in_range_exact; reflexivity).
  assert (Hrange : COMMAND_PWM_RANGE = COMMAND_PWM_MAX - COMMAND_PWM_MIN).
  { unfold COMMAND_PWM_RANGE, CInt.sub. rewrite Hmin, Hmax.
    apply in_range_exact. reflexivity. }
  assert (Hval : COMMAND_PWM_RANGE = 1004)
    by (rewrite Hrange, Hmin, Hmax; reflexivity).
  exact (conj Hrange (conj Hmin (conj Hmax (conj Hval Hval)))).
Qed.

(** ** The functions at the record of this header *)

Lemma in_pwm_interval_servo_04 (i : PwmInterval) (p : Z) :
  in_pwm_interval servo_04 i p =
  match i with
  | Command => (491 <=? p) && (p <=? 1495)
  | Anticlockwise => (1800 <=? p) && (p <=? 1891)
  | Clockwise => (2094 <=? p) && (p <=? 2194)
  end.
Proof. rewrite servo_04_values. destruct i; reflexivity. Qed.

Lemma in_speed_band_servo_04 (d : Direction) (s : Z) :
  in_speed_band servo_04 d s =
  match d with
  | CW => (130 <=? s) && (s <=? 283)
  | ACW => (-281 <=? s) && (s <=? -133)
  end.
Proof. rewrite servo_04_values. destruct d; reflexivity. Qed.

Lemma in_pwm_band_servo_04 (d : Direction) (p : Z) :
  in_pwm_band servo_04 d p =
  match d with
  | CW => (2094 <=? p) && (p <=? 2194)
  | ACW => (1800 <=? p) && (p <=? 1891)
  end.
Proof. destruct d; apply in_pwm_interval_servo_04. Qed.

Lemma speed_to_pwm_servo_04 (d : Direction) (s : Z) :
  speed_to_pwm servo_04 d s =
  match d with
  | CW => 2094 + Z.quot ((s - 130) * 100) 153
  | ACW => 1891 + Z.quot ((s - (-133)) * (-91)) (-148)
  end.
Proof. rewrite servo_04_values. destruct d; reflexivity. Qed.

Lemma pwm_to_speed_servo_04 (d : Direction) (p : Z) :
  pwm_to_speed servo_04 d p =
  match d with
  | CW => 130 + Z.quot ((p - 2094) * 153) 100
  | ACW => -133 + Z.quot ((p - 1891) * (-148)) (-91)
  end.
Proof. rewrite servo_04_values. destruct d; reflexivity. Qed.

Lemma feedbackPwmToPosition_servo_04 (p : Z) :
  feedbackPwmToPosition servo_04 p =
  if (504 <=? p) && (p <=? 1509)
  then Ok (interpolateQ 504 1509 0 1 (inject_Z p))
  else Err OutOfCalibratedRange.
Proof. rewrite servo_04_values. reflexivity. Qed.

(** Reading boolean interval tests as inequalities. *)
Ltac bounds :=
  repeat match goal with
    | H : (_ && _)%bool = true |- _ => apply andb_true_iff in H; destruct H
    | H : (_ && _)%bool = false |- _ => apply andb_false_iff in H
    | H : (_ <=? _) = true |- _ => apply Z.leb_le in H
    | H : (_ <=? _) = false |- _ => apply Z.leb_gt in H
    | H : (_ <? _) = true |- _ => apply Z.ltb_lt in H
    | H : (_ <? _) = false |- _ => apply Z.ltb_ge in H
    end.

Lemma band_of_sign_in_band (d : Direction) (s : Z) :
  in_speed_band servo_04 d s = true -> band_of_sign s = Some d.
Proof.
  rewrite in_speed_band_servo_04. unfold band_of_sign. intros H.
  destruct d; bounds.
  - replace (0 <? s) with true by (symmetry; apply Z.ltb_lt; lia). reflexivity.
  - replace (0 <? s) with false by (symmetry; apply Z.ltb_ge; lia).
    replace (s <? 0) with true by (symmetry; apply Z.ltb_lt; lia). reflexivity.
Qed.


Lemma speedToCommandPwm_in_band (neutral : Z) (d : Direction) (s : Z) :
  in_speed_band servo_04 d s = true ->
  speedToCommandPwm servo_04 neutral s = Ok (speed_to_pwm servo_04 d s).
Proof.
  intros H. unfold speedToCommandPwm.
  rewrite (band_of_sign_in_band d s H), H. reflexivity.
Qed.



Lemma commandPwmToSpeed_in_band (d : Direction) (p : Z) :
  in_pwm_band servo_04 d p = true ->
  commandPwmToSpeed servo_04 p = Ok (pwm_to_speed servo_04 d p).
Proof.
  intros H. unfold commandPwmToSpeed, band_of_pwm.
  destruct d.
  - rewrite H. reflexivity.
  - replace (in_pwm_band servo_04 CW p) with false; [rewrite H; reflexivity|].
    rewrite in_pwm_band_servo_04 in *. bounds.
    symmetry. apply andb_false_iff. left. apply Z.leb_gt. lia.
Qed.


(** ** The bands of the header *)

(** C3.  The anticlockwise band is reversed with respect to the clockwise
    one: its PWM minimum 1891 is above its PWM maximum 1800, while the
    clockwise PWM bounds are in increasing order; its two speed bounds -133
    and -281 are negative and decreasing; the bound of larger magnitude,
    [ANTICLOCKWISE_SPEED_MAX], is the one paired with the smaller PWM,
    [ANTICLOCKWISE_PWM_MAX]. *)
Theorem C3_anticlockwise_band_reversed :
  (ANTICLOCKWISE_PWM_MIN = 1891 /\ ANTICLOCKWISE_PWM_MAX = 1800)
  /\ ANTICLOCKWISE_PWM_MIN > ANTICLOCKWISE_PWM_MAX
  /\ CLOCKWISE_PWM_MIN < CLOCKWISE_PWM_MAX
  /\ (ANTICLOCKWISE_SPEED_MIN = -133 /\ ANTICLOCKWISE_SPEED_MAX = -281)
  /\ (ANTICLOCKWISE_SPEED_MIN < 0 /\ ANTICLOCKWISE_SPEED_MAX < 0)
  /\ ANTICLOCKWISE_SPEED_MIN > ANTICLOCKWISE_SPEED_MAX
  /\ (Z.abs ANTICLOCKWISE_SPEED_MAX > Z.abs ANTICLOCKWISE_SPEED_MIN
      /\ ANTICLOCKWISE_PWM_MAX < ANTICLOCKWISE_PWM_MIN).
Proof.
  pose proof (f_equal anticlockwisePwmMin servo_04_values) as Hpmin.
  pose proof (f_equal anticlockwisePwmMax servo_04_values) as Hpmax.
  pose proof (f_equal anticlockwiseSpeedMin servo_04_values) as Hsmin.
  pose proof (f_equal anticlockwiseSpeedMax servo_04_values) as Hsmax.
  pose proof (f_equal clockwisePwmMin servo_04_values) as Hcmin.
  pose proof (f_equal clockwisePwmMax servo_04_values) as Hcmax.
  simpl in Hpmin, Hpmax, Hsmin, Hsmax, Hcmin, Hcmax.
  rewrite Hpmin, Hpmax, Hsmin, Hsmax, Hcmin, Hcmax.
  change (Z.abs (-281)) with 281. change (Z.abs (-133)) with 133.
  lia.
Qed.

(** C7.  The record of this header satisfies the invariant of the data
    model: its feedback minimum 504 is strictly below its feedback maximum
    1509. *)
Theorem C7_feedback_bounds_ordered :
  feedback_ordered servo_04
  /\ FEEDBACK_PWM_MIN < FEEDBACK_PWM_MAX
  /\ FEEDBACK_PWM_MIN = 504
  /\ FEEDBACK_PWM_MAX = 1509.
Proof.
  pose proof (f_equal feedbackPwmMin servo_04_values) as Hmin.
  pose proof (f_equal feedbackPwmMax servo_04_values) as Hmax.
  unfold feedback_ordered. simpl in *. lia.
Qed.

(** C9.  The command interval [491, 1495], the anticlockwise band
    [1800, 1891] (endpoints in numeric order) and the clockwise band
    [2094, 2194] are pairwise disjoint: no PWM value lies in two of them, so
    at most one interval, and at most one band of [commandPwmToSpeed],
    contains a given PWM value. *)
Theorem C9_pwm_intervals_disjoint (p : Z) :
  (in_pwm_interval servo_04 Command p = (491 <=? p) && (p <=? 1495)
   /\ in_pwm_interval servo_04 Anticlockwise p = (1800 <=? p) && (p <=? 1891)
   /\ in_pwm_interval servo_04 Clockwise p = (2094 <=? p) && (p <=? 2194))
  /\ (in_pwm_interval servo_04 Command p
      && in_pwm_interval servo_04 Anticlockwise p = false
      /\ in_pwm_interval servo_04 Command p
         && in_pwm_interval servo_04 Clockwise p = false
      /\ in_pwm_interval servo_04 Anticlockwise p
         && in_pwm_interval servo_04 Clockwise p = false)
  /\ (length (pwm_intervals_of servo_04 p) <= 1)%nat
  /\ in_pwm_band servo_04 CW p && in_pwm_band servo_04 ACW p = false.
Proof.
  split; [repeat split; apply in_pwm_interval_servo_04|].
  unfold pwm_intervals_of, pwm_intervals, in_pwm_band. simpl filter.
  rewrite !in_pwm_interval_servo_04.
  destruct (Z.leb_spec 491 p), (Z.leb_spec p 1495),
    (Z.leb_spec 1800 p), (Z.leb_spec p 1891),
    (Z.leb_spec 2094 p), (Z.leb_spec p 2194);
    simpl; try lia; repeat split; lia.
Qed.




(** ** Errors *)




(** ** Interpolation: exact and rounded *)

Lemma inject_Z_minus (x y : Z) : inject_Z (x - y) = (inject_Z x - inject_Z y)%Q.
Proof. unfold Z.sub, Qminus. now rewrite inject_Z_plus, inject_Z_opp. Qed.

Lemma inject_Z_nonzero (z : Z) : z <> 0 -> ~ (inject_Z z == 0)%Q.
Proof. intros Hz H. apply Hz. now apply (inject_Z_injective z 0). Qed.

(** Interpolating back over the swapped spans undoes the interpolation. *)
Lemma interpolateQ_inverse (a b c d : Z) (x : Q) :
  a <> b -> c <> d ->
  (interpolateQ c d a b (interpolateQ a b c d x) == x)%Q.
Proof.
  intros Hab Hcd. unfold interpolateQ.
  pose proof (inject_Z_nonzero (b - a) ltac:(lia)) as Hba.
  pose proof (inject_Z_nonzero (d - c) ltac:(lia)) as Hdc.
  field. split; assumption.
Qed.

(** A truncated quotient is less than one away from the exact one. *)
Lemma quot_near (n m : Z) :
  m <> 0 -> (Qabs (inject_Z (Z.quot n m) - inject_Z n / inject_Z m) < 1)%Q.
Proof.
  intros Hm.
  pose proof (Z.quot_rem' n m) as Hn.
  pose proof (Z.rem_bound_abs n m Hm) as Hr.
  set (q := Z.quot n m) in *. set (r := Z.rem n m) in *.
  assert (HQ : (inject_Z n == inject_Z m * inject_Z q + inject_Z r)%Q).
  { rewrite Hn at 1. rewrite inject_Z_plus, inject_Z_mult. reflexivity. }
  pose proof (inject_Z_nonzero m Hm) as Hm'.
  set (t := (inject_Z r / inject_Z m)%Q).
  assert (Ht : (t * inject_Z m == inject_Z r)%Q) by (unfold t; field; exact Hm').
  assert (Hd : (inject_Z q - inject_Z n / inject_Z m == - t)%Q).
  { unfold t. rewrite HQ. field. exact Hm'. }
  rewrite Hd, Qabs_opp.
  apply Qabs_Qlt_condition.
  destruct (Z_lt_le_dec 0 m) as [Hpos|Hneg].
  - assert (Hb : -m < r < m) by lia. destruct Hb as [Hb1 Hb2].
    rewrite Zlt_Qlt in Hpos, Hb1, Hb2. rewrite inject_Z_opp in Hb1.
    change (inject_Z 0) with 0%Q in Hpos.
    split; nra.
  - assert (Hb : m < r < - m) by lia. destruct Hb as [Hb1 Hb2].
    assert (Hneg' : m < 0) by lia.
    rewrite Zlt_Qlt in Hneg', Hb1, Hb2. rewrite inject_Z_opp in Hb2.
    change (inject_Z 0) with 0%Q in Hneg'.
    split; nra.
Qed.

(** The rounding tolerance of the integer interpolation: its result is less
    than one output unit away from the exact value. *)
Lemma interpolate_near (a b c d x : Z) :
  a <> b ->
  (Qabs (inject_Z (interpolate a b c d x)
         - interpolateQ a b c d (inject_Z x)) < 1)%Q.
Proof.
  intros Hab. unfold interpolate, interpolateQ.
  assert (Hm : b - a <> 0) by lia.
  pose proof (quot_near ((x - a) * (d - c)) (b - a) Hm) as Hq.
  rewrite inject_Z_mult, inject_Z_minus in Hq.
  rewrite inject_Z_plus.
  match goal with
  | |- (Qabs ?e < 1)%Q =>
      assert (He : (e == inject_Z (Z.quot ((x - a) * (d - c)) (b - a))
                        - (inject_Z x - inject_Z a) * inject_Z (d - c)
                          / inject_Z (b - a))%Q)
        by (field; now apply inject_Z_nonzero)
  end.
  rewrite He. exact Hq.
Qed.

Lemma betweenQ_intro (a b : Z) (x : Q) :
  (inject_Z (Z.min a b) <= x)%Q -> (x <= inject_Z (Z.max a b))%Q ->
  betweenQ a b x = true.
Proof.
  intros H1 H2. unfold betweenQ.
  apply andb_true_iff. split; now apply Qle_bool_iff.
Qed.

Lemma band_of_signQ_pos (x : Q) : (0 < x)%Q -> band_of_signQ x = Some CW.
Proof.
  intros Hx. unfold band_of_signQ.
  destruct (Qle_bool x 0) eqn:E; [|reflexivity].
  apply Qle_bool_iff in E. lra.
Qed.

Lemma band_of_signQ_neg (x : Q) : (x < 0)%Q -> band_of_signQ x = Some ACW.
Proof.
  intros Hx. unfold band_of_signQ.
  destruct (Qle_bool x 0) eqn:E0.
  - destruct (Qle_bool 0 x) eqn:E1; [|reflexivity].
    apply Qle_bool_iff in E1. lra.
  - assert (Hle : (x <= 0)%Q) by lra.
    apply Qle_bool_iff in Hle. congruence.
Qed.

(** The slope of an interpolation whose two spans run the same way. *)
Lemma slope_nonneg (a b c d : Z) :
  same_way a b c d -> (0 <= inject_Z (d - c) / inject_Z (b - a))%Q.
Proof.
  intros [[Hab Hcd]|[Hba Hdc]].
  - apply Qle_shift_div_l.
    + rewrite <- (Zlt_Qlt 0). lia.
    + rewrite Qmult_0_l, <- (Zle_Qle 0). lia.
  - assert (E : (inject_Z (d - c) / inject_Z (b - a)
                 == inject_Z (c - d) / inject_Z (a - b))%Q).
    { rewrite !inject_Z_minus.
      pose proof (inject_Z_nonzero (b - a) ltac:(lia)) as H1.
      pose proof (inject_Z_nonzero (a - b) ltac:(lia)) as H2.
      rewrite !inject_Z_minus in H1, H2.
      field. split; assumption. }
    rewrite E. apply Qle_shift_div_l.
    + rewrite <- (Zlt_Qlt 0). lia.
    + rewrite Qmult_0_l, <- (Zle_Qle 0). lia.
Qed.

Lemma interpolateQ_monotone (a b c d : Z) (x y : Q) :
  same_way a b c d -> (x <= y)%Q ->
  (interpolateQ a b c d x <= interpolateQ a b c d y)%Q.
Proof.
  intros Hway Hxy. pose proof (slope_nonneg a b c d Hway) as Hk.
  unfold interpolateQ.
  set (k := (inject_Z (d - c) / inject_Z (b - a))%Q) in *.
  assert (Ex : ((x - inject_Z a) * inject_Z (d - c) / inject_Z (b - a)
                == (x - inject_Z a) * k)%Q) by (unfold k, Qdiv; ring).
  assert (Ey : ((y - inject_Z a) * inject_Z (d - c) / inject_Z (b - a)
                == (y - inject_Z a) * k)%Q) by (unfold k, Qdiv; ring).
  rewrite Ex, Ey. nra.
Qed.

Lemma interpolateQ_start (a b c d : Z) :
  (interpolateQ a b c d (inject_Z a) == inject_Z c)%Q.
Proof. unfold interpolateQ, Qdiv. ring. Qed.

Lemma interpolateQ_end (a b c d : Z) :
  a <> b -> (interpolateQ a b c d (inject_Z b) == inject_Z d)%Q.
Proof.
  intros Hab. unfold interpolateQ.
  pose proof (inject_Z_nonzero (b - a) ltac:(lia)) as Hba.
  rewrite !inject_Z_minus in *. field. exact Hba.
Qed.

(** An input between the input endpoints goes between the output
    endpoints, whichever way the two spans run. *)
Lemma interpolateQ_between (a b c d : Z) (x : Q) :
  same_way a b c d -> betweenQ a b x = true ->
  betweenQ c d (interpolateQ a b c d x) = true.
Proof.
  intros Hway Hx. unfold betweenQ in Hx.
  apply andb_true_iff in Hx as [Hlo Hhi].
  apply Qle_bool_iff in Hlo, Hhi.
  assert (Hab : a <> b) by (destruct Hway; lia).
  pose proof (interpolateQ_start a b c d) as Hs.
  pose proof (interpolateQ_end a b c d Hab) as He.
  destruct Hway as [[Hlt Hle]|[Hlt Hle]].
  - rewrite Z.min_l in Hlo by lia. rewrite Z.max_r in Hhi by lia.
    apply betweenQ_intro.
    + rewrite Z.min_l, <- Hs by lia.
      apply interpolateQ_monotone; [left; lia | exact Hlo].
    + rewrite Z.max_r, <- He by lia.
      apply interpolateQ_monotone; [left; lia | exact Hhi].
  - rewrite Z.min_r in Hlo by lia. rewrite Z.max_l in Hhi by lia.
    apply betweenQ_intro.
    + rewrite Z.min_r, <- He by lia.
      apply interpolateQ_monotone; [right; lia | exact Hlo].
    + rewrite Z.max_l, <- Hs by lia.
      apply interpolateQ_monotone; [right; lia | exact Hhi].
Qed.

(** ** The exact conversions at the record of this header *)

Lemma in_speed_bandQ_servo_04 (d : Direction) (x : Q) :
  in_speed_bandQ servo_04 d x =
  match d with
  | CW => betweenQ 130 283 x
  | ACW => betweenQ (-133) (-281) x
  end.
Proof. rewrite servo_04_values. destruct d; reflexivity. Qed.

Lemma in_pwm_bandQ_servo_04 (d : Direction) (p : Q) :
  in_pwm_bandQ servo_04 d p =
  match d with
  | CW => betweenQ 2094 2194 p
  | ACW => betweenQ 1891 1800 p
  end.
Proof. rewrite servo_04_values. destruct d; reflexivity. Qed.

Lemma speed_to_pwmQ_servo_04 (d : Direction) (x : Q) :
  speed_to_pwmQ servo_04 d x =
  match d with
  | CW => interpolateQ 130 283 2094 2194 x
  | ACW => interpolateQ (-133) (-281) 1891 1800 x
  end.
Proof. rewrite servo_04_values. destruct d; reflexivity. Qed.

Lemma pwm_to_speedQ_servo_04 (d : Direction) (p : Q) :
  pwm_to_speedQ servo_04 d p =
  match d with
  | CW => interpolateQ 2094 2194 130 283 p
  | ACW => interpolateQ 1891 1800 (-133) (-281) p
  end.
Proof. rewrite servo_04_values. destruct d; reflexivity. Qed.

(** The exact command PWM of a speed inside a band lies in the PWM interval
    of the same band. *)
Lemma speed_to_pwmQ_in_band (d : Direction) (x : Q) :
  in_speed_bandQ servo_04 d x = true ->
  in_pwm_bandQ servo_04 d (speed_to_pwmQ servo_04 d x) = true.
Proof.
  rewrite in_speed_bandQ_servo_04, in_pwm_bandQ_servo_04, speed_to_pwmQ_servo_04.
  destruct d; apply interpolateQ_between; [left | right]; lia.
Qed.

Lemma band_of_pwmQ_in_band (d : Direction) (p : Q) :
  in_pwm_bandQ servo_04 d p = true -> band_of_pwmQ servo_04 p = Some d.
Proof.
  intros H. unfold band_of_pwmQ. destruct d.
  - rewrite H. reflexivity.
  - rewrite H.
    destruct (in_pwm_bandQ servo_04 CW p) eqn:Ecw; [|reflexivity].
    rewrite in_pwm_bandQ_servo_04 in H, Ecw. unfold betweenQ in H, Ecw.
    apply andb_true_iff in H as [_ H], Ecw as [Ecw _].
    apply Qle_bool_iff in H, Ecw.
    change (inject_Z (Z.max 1891 1800)) with 1891%Q in H.
    change (inject_Z (Z.min 2094 2194)) with 2094%Q in Ecw.
    lra.
Qed.

Lemma speed_roundtripQ (neutral : Z) (d : Direction) (x : Q) :
  band_of_signQ x = Some d ->
  in_speed_bandQ servo_04 d x = true ->
  exists q t : Q,
    speedToCommandPwmQ servo_04 neutral x = Ok q
    /\ commandPwmToSpeedQ servo_04 q = Ok t
    /\ (t == x)%Q.
Proof.
  intros Hsign Hband.
  exists (speed_to_pwmQ servo_04 d x).
  exists (pwm_to_speedQ servo_04 d (speed_to_pwmQ servo_04 d x)).
  split; [|split].
  - unfold speedToCommandPwmQ. rewrite Hsign, Hband. reflexivity.
  - unfold commandPwmToSpeedQ.
    rewrite (band_of_pwmQ_in_band d); [reflexivity|].
    now apply speed_to_pwmQ_in_band.
  - rewrite pwm_to_speedQ_servo_04, speed_to_pwmQ_servo_04.
    destruct d; apply interpolateQ_inverse; lia.
Qed.

(** ** The integer round trip *)

Lemma speed_roundtrip (neutral : Z) (d : Direction) (s : Z) :
  in_speed_band servo_04 d s = true ->
  exists p s' : Z,
    speedToCommandPwm servo_04 neutral s = Ok p
    /\ commandPwmToSpeed servo_04 p = Ok s'
    /\ Z.abs (s' - s) <= 2.
Proof.
  intros Hband.
  exists (speed_to_pwm servo_04 d s).
  exists (pwm_to_speed servo_04 d (speed_to_pwm servo_04 d s)).
  split; [|split].
  - now apply speedToCommandPwm_in_band.
  - apply commandPwmToSpeed_in_band.
    rewrite in_pwm_band_servo_04, speed_to_pwm_servo_04.
    rewrite in_speed_band_servo_04 in Hband.
    destruct d; bounds; apply andb_true_iff; split; apply Z.leb_le;
      Z.to_euclidean_division_equations; lia.
  - rewrite pwm_to_speed_servo_04, speed_to_pwm_servo_04.
    rewrite in_speed_band_servo_04 in Hband.
    destruct d; bounds; Z.to_euclidean_division_equations; lia.
Qed.

(** ** The conversions *)

(** C4.  On the clockwise band (speeds 130 to 283 onto PWM 2094 to 2194)
    [speedToCommandPwm] sends 130 to 2094 and 283 to 2194.  The midpoint of
    the speed bounds goes to the midpoint 2144 of the PWM bounds up to
    rounding: in integer arithmetic the midpoint speed is 206 and its PWM
    2143, one unit off; over the rationals the midpoint speed 413/2 goes to
    2144 exactly. *)
Theorem C4_clockwise_interpolation (neutral : Z) :
  speedToCommandPwm servo_04 neutral 130 = Ok 2094
  /\ speedToCommandPwm servo_04 neutral 283 = Ok 2194
  /\ Z.quot (2094 + 2194) 2 = 2144
  /\ (exists p : Z,
        speedToCommandPwm servo_04 neutral (Z.quot (130 + 283) 2) = Ok p
        /\ Z.abs (p - 2144) <= 1)
  /\ (exists q : Q,
        speedToCommandPwmQ servo_04 neutral ((130 + 283) / 2)%Q = Ok q
        /\ (q == 2144)%Q).
Proof.
  assert (Hend : forall s, in_speed_band servo_04 CW s = true ->
                 speedToCommandPwm servo_04 neutral s
                 = Ok (2094 + Z.quot ((s - 130) * 100) 153)).
  { intros s Hs. rewrite (speedToCommandPwm_in_band neutral CW s Hs).
    now rewrite speed_to_pwm_servo_04. }
  split; [|split; [|split; [|split]]].
  - rewrite Hend by (rewrite in_speed_band_servo_04; reflexivity). reflexivity.
  - rewrite Hend by (rewrite in_speed_band_servo_04; reflexivity). reflexivity.
  - reflexivity.
  - exists 2143. split; [|simpl; lia].
    rewrite Hend by (rewrite in_speed_band_servo_04; reflexivity). reflexivity.
  - exists (interpolateQ 130 283 2094 2194 ((130 + 283) / 2)%Q). split.
    + unfold speedToCommandPwmQ.
      rewrite band_of_signQ_pos by reflexivity.
      rewrite in_speed_bandQ_servo_04, speed_to_pwmQ_servo_04. reflexivity.
    + reflexivity.
Qed.

(** The tolerance of the integer round trip cannot be lowered to one unit:
    speed 133 comes back as 131. *)
Lemma speed_roundtrip_two_off (neutral : Z) :
  speedToCommandPwm servo_04 neutral 133 = Ok 2095
  /\ commandPwmToSpeed servo_04 2095 = Ok 131.
Proof.
  split.
  - rewrite (speedToCommandPwm_in_band neutral CW), speed_to_pwm_servo_04;
      [reflexivity | rewrite in_speed_band_servo_04; reflexivity].
  - rewrite (commandPwmToSpeed_in_band CW), pwm_to_speed_servo_04;
      [reflexivity | rewrite in_pwm_band_servo_04; reflexivity].
Qed.

(** C5.  For every speed inside a calibrated band (130 to 283 clockwise,
    -281 to -133 anticlockwise) the round trip through [speedToCommandPwm] and
    [commandPwmToSpeed] succeeds and returns the speed within the rounding
    tolerance of the integer interpolation, two units; with the interpolation
    carried out over the rationals it returns the speed exactly. *)
Theorem C5_speed_roundtrip (neutral : Z) :
  (forall s : Z,
      130 <= s <= 283 \/ -281 <= s <= -133 ->
      exists p s' : Z,
        speedToCommandPwm servo_04 neutral s = Ok p
        /\ commandPwmToSpeed servo_04 p = Ok s'
        /\ Z.abs (s' - s) <= 2)
  /\ (forall x : Q,
        (130 <= x <= 283 \/ -281 <= x <= -133)%Q ->
        exists q t : Q,
          speedToCommandPwmQ servo_04 neutral x = Ok q
          /\ commandPwmToSpeedQ servo_04 q = Ok t
          /\ (t == x)%Q).
Proof.
  split.
  - intros s [Hs|Hs].
    + apply (speed_roundtrip neutral CW). rewrite in_speed_band_servo_04.
      apply andb_true_iff. split; apply Z.leb_le; lia.
    + apply (speed_roundtrip neutral ACW). rewrite in_speed_band_servo_04.
      apply andb_true_iff. split; apply Z.leb_le; lia.
  - intros x [[Hlo Hhi]|[Hlo Hhi]].
    + apply (speed_roundtripQ neutral CW).
      * apply band_of_signQ_pos. lra.
      * rewrite in_speed_bandQ_servo_04. now apply betweenQ_intro.
    + apply (speed_roundtripQ neutral ACW).
      * apply band_of_signQ_neg. lra.
      * rewrite in_speed_bandQ_servo_04. now apply betweenQ_intro.
Qed.

Lemma C5_roundtrip_at_200 :
  (130 <= 200 <= 283 \/ -281 <= 200 <= -133)
  /\ (exists p s' : Z,
         speedToCommandPwm servo_04 1992 200 = Ok p
         /\ commandPwmToSpeed servo_04 p = Ok s'
         /\ Z.abs (s' - 200) <= 2)
  /\ (130 <= -413 # 2 <= 283 \/ -281 <= -413 # 2 <= -133)%Q
  /\ (exists q t : Q,
         speedToCommandPwmQ servo_04 1992 (-413 # 2) = Ok q
         /\ commandPwmToSpeedQ servo_04 q = Ok t
         /\ (t == -413 # 2)%Q).
Proof.
  assert (H1 : 130 <= 200 <= 283 \/ -281 <= 200 <= -133) by (left; lia).
  assert (H2 : (130 <= -413 # 2 <= 283 \/ -281 <= -413 # 2 <= -133)%Q).
  { right. split; discriminate. }
  split; [exact H1|].
  split; [exact (proj1 (C5_speed_roundtrip 1992) 200 H1)|].
  split; [exact H2|].
  exact (proj2 (C5_speed_roundtrip 1992) (-413 # 2)%Q H2).
Defined.

(** C6.  [feedbackPwmToPosition] is monotonic non-decreasing on the feedback
    band: for PWM samples p1 <= p2 inside [504, 1509] both conversions
    succeed and the position of p1 is at most the position of p2. *)
Theorem C6_feedback_position_monotone (p1 p2 : Z) :
  504 <= p1 -> p1 <= p2 -> p2 <= 1509 ->
  exists x1 x2 : Q,
    feedbackPwmToPosition servo_04 p1 = Ok x1
    /\ feedbackPwmToPosition servo_04 p2 = Ok x2
    /\ (x1 <= x2)%Q.
Proof.
  intros Hlo Hle Hhi.
  exists (interpolateQ 504 1509 0 1 (inject_Z p1)).
  exists (interpolateQ 504 1509 0 1 (inject_Z p2)).
  split; [|split].
  - rewrite feedbackPwmToPosition_servo_04.
    replace ((504 <=? p1) && (p1 <=? 1509)) with true; [reflexivity|].
    symmetry. apply andb_true_iff. split; apply Z.leb_le; lia.
  - rewrite feedbackPwmToPosition_servo_04.
    replace ((504 <=? p2) && (p2 <=? 1509)) with true; [reflexivity|].
    symmetry. apply andb_true_iff. split; apply Z.leb_le; lia.
  - apply interpolateQ_monotone; [left; lia|].
    rewrite <- Zle_Qle. exact Hle.
Qed.

Lemma C6_monotone_at_600_1006 :
  504 <= 600 /\ 600 <= 1006 /\ 1006 <= 1509
  /\ exists x1 x2 : Q,
       feedbackPwmToPosition servo_04 600 = Ok x1
       /\ feedbackPwmToPosition servo_04 1006 = Ok x2
       /\ (x1 <= x2)%Q.
Proof.
  assert (H1 : 504 <= 600) by lia.
  assert (H2 : 600 <= 1006) by lia.
  assert (H3 : 1006 <= 1509) by lia.
  exact (conj H1 (conj H2 (conj H3
           (C6_feedback_position_monotone 600 1006 H1 H2 H3)))).
Defined.

(** The feedback band is sent onto the normalized range: its minimum to 0,
    its maximum to 1. *)
Lemma feedback_position_extremes :
  (exists x0 : Q, feedbackPwmToPosition servo_04 FEEDBACK_PWM_MIN = Ok x0
                  /\ (x0 == 0)%Q)
  /\ (exists x1 : Q, feedbackPwmToPosition servo_04 FEEDBACK_PWM_MAX = Ok x1
                     /\ (x1 == 1)%Q).
Proof.
  split; eexists; (split; [rewrite servo_04_values; reflexivity | reflexivity]).
Qed.

(** On a band the integer command PWM is less than one PWM unit away from
    the exact one. *)
Lemma speed_to_pwm_near (d : Direction) (s : Z) :
  (Qabs (inject_Z (speed_to_pwm servo_04 d s)
         - speed_to_pwmQ servo_04 d (inject_Z s)) < 1)%Q.
Proof.
  rewrite speed_to_pwmQ_servo_04.
  replace (speed_to_pwm servo_04 d s) with
    (match d with
     | CW => interpolate 130 283 2094 2194 s
     | ACW => interpolate (-133) (-281) 1891 1800 s
     end) by (rewrite servo_04_values; destruct d; reflexivity).
  destruct d; apply interpolate_near; lia.
Qed.

(** The endpoints of the anticlockwise band: speed -133 goes to PWM 1891 and
    speed -281 to PWM 1800. *)
Lemma anticlockwise_endpoints (neutral : Z) :
  speedToCommandPwm servo_04 neutral ANTICLOCKWISE_SPEED_MIN
  = Ok ANTICLOCKWISE_PWM_MIN
  /\ speedToCommandPwm servo_04 neutral ANTICLOCKWISE_SPEED_MAX
     = Ok ANTICLOCKWISE_PWM_MAX
  /\ speedToCommandPwm servo_04 neutral (-133) = Ok 1891
  /\ speedToCommandPwm servo_04 neutral (-281) = Ok 1800.
Proof.
  pose proof (f_equal anticlockwisePwmMin servo_04_values) as Hpmin.
  pose proof (f_equal anticlockwisePwmMax servo_04_values) as Hpmax.
  pose proof (f_equal anticlockwiseSpeedMin servo_04_values) as Hsmin.
  pose proof (f_equal anticlockwiseSpeedMax servo_04_values) as Hsmax.
  simpl in Hpmin, Hpmax, Hsmin, Hsmax.
  rewrite Hpmin, Hpmax, Hsmin, Hsmax.
  assert (H133 : speedToCommandPwm servo_04 neutral (-133) = Ok 1891).
  { rewrite (speedToCommandPwm_in_band neutral ACW), speed_to_pwm_servo_04;
      [reflexivity | rewrite in_speed_band_servo_04; reflexivity]. }
  assert (H281 : speedToCommandPwm servo_04 neutral (-281) = Ok 1800).
  { rewrite (speedToCommandPwm_in_band neutral ACW), speed_to_pwm_servo_04;
      [reflexivity | rewrite in_speed_band_servo_04; reflexivity]. }
  auto.
Qed.

(** * The header under macro replacement *)

(** ** Macro replacement *)

Lemma replacement_In (ds : list directive) (x : String.string)
    (body : list token) :
  replacement ds x = Some body -> In (x, body) ds.
Proof.
  induction ds as [|[y b] ds IH]; simpl; [discriminate|].
  destruct (String.eqb x y) eqn:E.
  - intros H. injection H as ->. apply String.eqb_eq in E. subst y. now left.
  - intros H. right. now apply IH.
Qed.

Lemma replacement_None (ds : list directive) (x : String.string) :
  ~ In x (macro_names ds) -> replacement ds x = None.
Proof.
  intros Hx. destruct (replacement ds x) as [body|] eqn:E; [|reflexivity].
  exfalso. apply Hx. apply replacement_In in E.
  unfold macro_names. change x with (fst (x, body)). now apply in_map.
Qed.

(** Splitting a membership in a concrete list into its cases. *)
Ltac in_cases H :=
  simpl in H;
  repeat match type of H with
    | _ \/ _ => destruct H as [H|H]
    end;
  try contradiction.

(** The replacement of a macro of the header holds no identifier: every
    name a replacement list uses is itself replaced. *)
Lemma expand_token_no_identifier (t u : token) :
  In u (expand_token servo_04_h (List.length servo_04_h) [] t) ->
  is_identifier u = true ->
  u = t /\ forall x, t = TId x -> replacement servo_04_h x = None.
Proof.
  intros Hin Hid.
  destruct t as [n|y| | | | | |];
    try (simpl in Hin; destruct Hin as [<-|[]]; discriminate Hid).
  destruct (replacement servo_04_h y) as [body|] eqn:E.
  - exfalso. apply replacement_In in E.
    in_cases E; injection E as <- <-;
      vm_compute in Hin; in_cases Hin; subst u; discriminate Hid.
  - change (List.length servo_04_h) with 15%nat in Hin.
    cbn [expand_token existsb] in Hin. rewrite E in Hin.
    destruct Hin as [<-|[]]. split; [reflexivity|].
    intros x Hx. injection Hx as <-. exact E.
Qed.

(** Tokens that name no macro of the header are left as they are. *)
Lemma expand_fixed (ts : list token) :
  (forall x, In (TId x) ts -> replacement servo_04_h x = None) ->
  expand servo_04_h ts = ts.
Proof.
  unfold expand. induction ts as [|t ts IH]; intros Hts; [reflexivity|].
  cbn [flat_map]. rewrite IH by (intros x Hx; apply Hts; now right).
  destruct t as [n|y| | | | | |]; try reflexivity.
  change (List.length servo_04_h) with 15%nat.
  cbn [expand_token existsb app].
  rewrite (Hts y) by now left. reflexivity.
Qed.

Lemma replacement_Some (ds : list directive) (x : String.string) :
  In x (macro_names ds) -> replacement ds x <> None.
Proof.
  induction ds as [|[y b] ds IH]; simpl; [contradiction|].
  intros [<-|Hx].
  - rewrite String.eqb_refl. discriminate.
  - destruct (String.eqb x y); [discriminate | now apply IH].
Qed.

(** X6.  After macro replacement no name of a macro of the header is left, from
    whatever tokens one starts; so a second replacement changes nothing. *)
Theorem expand_leaves_no_macro (ts : list token) :
  (forall x : String.string,
      In (TId x) (expand servo_04_h ts) -> ~ In x (macro_names servo_04_h))
  /\ expand servo_04_h (expand servo_04_h ts) = expand servo_04_h ts.
Proof.
  assert (Hleft : forall x, In (TId x) (expand servo_04_h ts) ->
                            replacement servo_04_h x = None).
  { intros x Hx. unfold expand in Hx. apply in_flat_map in Hx as [t [_ Ht]].
    destruct (expand_token_no_identifier t (TId x) Ht eq_refl) as [<- Hnone].
    now apply Hnone. }
  split.
  - intros x Hx Hname. now apply (replacement_Some servo_04_h x Hname), Hleft.
  - now apply expand_fixed.
Qed.

Lemma expand_leaves_no_macro_example :
  In (TId "SERVO_PIN"%string)
     (expand servo_04_h [TId "SERVO_PIN"%string; TPlus; TId "NANO_ID"%string])
  /\ ~ In "SERVO_PIN"%string (macro_names servo_04_h).
Proof.
  assert (H : In (TId "SERVO_PIN"%string)
                 (expand servo_04_h
                    [TId "SERVO_PIN"%string; TPlus; TId "NANO_ID"%string]))
    by (left; reflexivity).
  split; [exact H|].
  exact (proj1 (expand_leaves_no_macro
                  [TId "SERVO_PIN"%string; TPlus; TId "NANO_ID"%string])
               "SERVO_PIN"%string H).
Defined.

(** ** Values by replacement and evaluation *)

(** X3.  Replacing a macro name by the directives of the header and evaluating
    the tokens obtained gives the value of the constant that embeds the
    macro; the embedded constants are those of the header, name for name. *)
Theorem macro_value_by_replacement (x : String.string) (v : Z) :
  In (x, v) embedded_macros ->
  eval_with_header [TId x] = Some v
  /\ map fst embedded_macros = macro_names servo_04_h.
Proof.
  intros H. split; [|reflexivity].
  in_cases H; injection H as <- <-; reflexivity.
Qed.

Lemma macro_value_feedback_middle :
  In ("FEEDBACK_PWM_MIDDLE"%string, FEEDBACK_PWM_MIDDLE) embedded_macros
  /\ eval_with_header [TId "FEEDBACK_PWM_MIDDLE"%string]
     = Some FEEDBACK_PWM_MIDDLE.
Proof.
  assert (H : In ("FEEDBACK_PWM_MIDDLE"%string, FEEDBACK_PWM_MIDDLE)
                 embedded_macros) by (simpl; tauto).
  split; [exact H|].
  exact (proj1 (macro_value_by_replacement _ _ H)).
Defined.

(** ** Macros as operands *)

(** X4.  Every macro of the header is replaced by one complete unary expression:
    whatever tokens follow it, the evaluator consumes exactly the replacement
    as a unary expression of the macro's value and leaves the following
    tokens untouched (fuel 11 covers the deepest replacement, that of
    [FEEDBACK_PWM_MIDDLE]; more fuel changes nothing).  The parentheses of the two derived macros are what
    makes this hold for them. *)
Theorem macro_is_unary_expression (x : String.string) (v : Z)
    (rest : list token) (fuel : nat) :
  In (x, v) embedded_macros ->
  unary (11 + fuel) (expand servo_04_h [TId x] ++ rest) = Some (v, rest).
Proof.
  intros H.
  in_cases H; injection H as <- <-; reflexivity.
Qed.

Lemma macro_is_unary_expression_range :
  In ("COMMAND_PWM_RANGE"%string, COMMAND_PWM_RANGE) embedded_macros
  /\ unary 11 (expand servo_04_h [TId "COMMAND_PWM_RANGE"%string]
               ++ [TStar; TNum 2])
     = Some (COMMAND_PWM_RANGE, [TStar; TNum 2]).
Proof.
  assert (H : In ("COMMAND_PWM_RANGE"%string, COMMAND_PWM_RANGE)
                 embedded_macros) by (simpl; tauto).
  split; [exact H|].
  exact (macro_is_unary_expression _ _ [TStar; TNum 2] 0 H).
Defined.

(** X5.  Between any two macros of the header a binary operator acts on their
    values: the replacement lists never regroup with the operator.  (No
    macro of the header is zero, so the quotient always exists.) *)
Theorem macros_are_operands (o : binop) (x1 x2 : String.string) (v1 v2 : Z) :
  In (x1, v1) embedded_macros ->
  In (x2, v2) embedded_macros ->
  eval_with_header [TId x1; binop_token o; TId x2]
  = Some (binop_int o v1 v2).
Proof.
  intros H1 H2.
  in_cases H1; injection H1 as <- <-;
    in_cases H2; injection H2 as <- <-;
    destruct o; vm_compute; reflexivity.
Qed.

Lemma macros_are_operands_id_times_range :
  In ("NANO_ID"%string, NANO_ID) embedded_macros
  /\ In ("COMMAND_PWM_RANGE"%string, COMMAND_PWM_RANGE) embedded_macros
  /\ eval_with_header
       [TId "NANO_ID"%string; TStar; TId "COMMAND_PWM_RANGE"%string]
     = Some (CInt_mul NANO_ID COMMAND_PWM_RANGE).
Proof.
  assert (H1 : In ("NANO_ID"%string, NANO_ID) embedded_macros)
    by (simpl; tauto).
  assert (H2 : In ("COMMAND_PWM_RANGE"%string, COMMAND_PWM_RANGE)
                  embedded_macros) by (simpl; tauto).
  exact (conj H1 (conj H2 (macros_are_operands OpMul _ _ _ _ H1 H2))).
Defined.

(** Without its parentheses [COMMAND_PWM_RANGE] would regroup: the product
    of [NANO_ID] and the range would be 4 * 1495 - 491 = 5489 instead of
    4 * 1004 = 4016. *)
Lemma range_without_parentheses :
  eval_tokens (expand
    [ ("NANO_ID"%string, [TNum 4]);
      ("COMMAND_PWM_MIN"%string, [TNum 491]);
      ("COMMAND_PWM_MAX"%string, [TNum 1495]);
      ("COMMAND_PWM_RANGE"%string,
        [TId "COMMAND_PWM_MAX"%string; TMinus; TId "COMMAND_PWM_MIN"%string]) ]
    [TId "NANO_ID"%string; TStar; TId "COMMAND_PWM_RANGE"%string])
  = Some 5489
  /\ eval_with_header
       [TId "NANO_ID"%string; TStar; TId "COMMAND_PWM_RANGE"%string]
     = Some 4016.
Proof. split; reflexivity. Qed.

(** * The derived macros for arbitrary bounds *)

Lemma wrap_in_range (z : Z) : CInt.in_range (CInt.wrap z) = true.
Proof.
  unfold CInt.in_range, CInt.wrap, CInt.INT_MIN, CInt.INT_MAX.
  change CInt.half_modulus with 32768. change CInt.modulus with 65536.
  pose proof (Z.mod_pos_bound (z + 32768) 65536 ltac:(lia)).
  apply andb_true_iff. split; apply Z.leb_le; lia.
Qed.

(** Wrapping an operand first does not change a wrapped sum. *)
Lemma wrap_add_wrap (a b : Z) : CInt.wrap (a + CInt.wrap b) = CInt.wrap (a + b).
Proof.
  unfold CInt.wrap. f_equal.
  replace (a + ((b + CInt.half_modulus) mod CInt.modulus - CInt.half_modulus)
           + CInt.half_modulus)
    with (a + (b + CInt.half_modulus) mod CInt.modulus) by ring.
  rewrite Zplus_mod_idemp_r. f_equal. ring.
Qed.

Lemma in_range_bounds (z : Z) :
  CInt.in_range z = true -> -32768 <= z <= 32767.
Proof.
  unfold CInt.in_range. intros H. apply andb_true_iff in H as [H1 H2].
  apply Z.leb_le in H1, H2.
  change CInt.INT_MIN with (-32768) in H1. change CInt.INT_MAX with 32767 in H2.
  lia.
Qed.

Lemma bounds_in_range (z : Z) :
  -32768 <= z <= 32767 -> CInt.in_range z = true.
Proof.
  intros H. unfold CInt.in_range.
  change CInt.INT_MIN with (-32768). change CInt.INT_MAX with 32767.
  apply andb_true_iff. split; apply Z.leb_le; lia.
Qed.

Lemma FEEDBACK_PWM_MIDDLE_as_function :
  FEEDBACK_PWM_MIDDLE = pwm_middle FEEDBACK_PWM_MIN FEEDBACK_PWM_MAX.
Proof. reflexivity. Qed.

Lemma COMMAND_PWM_RANGE_as_function :
  COMMAND_PWM_RANGE = pwm_range COMMAND_PWM_MIN COMMAND_PWM_MAX.
Proof. reflexivity. Qed.

(** X1.  Whenever the two bounds are ordered and their sum fits [int], the middle
    macro lies between the bounds and splits their distance evenly, up to
    the unit lost by the truncating division. *)
Theorem pwm_middle_between (lo hi : Z) :
  CInt.in_range lo = true ->
  CInt.in_range hi = true ->
  CInt.in_range (hi + lo) = true ->
  lo <= hi ->
  lo <= pwm_middle lo hi <= hi
  /\ Z.abs ((hi - pwm_middle lo hi) - (pwm_middle lo hi - lo)) <= 1.
Proof.
  intros Hlo Hhi Hsum Hle.
  assert (Hm : pwm_middle lo hi = Z.quot (hi + lo) 2).
  { unfold pwm_middle, CInt.div, CInt.add, CInt.lit.
    rewrite (in_range_exact (hi + lo) Hsum).
    rewrite (in_range_exact 2) by reflexivity.
    apply in_range_exact, bounds_in_range.
    apply in_range_bounds in Hsum.
    Z.to_euclidean_division_equations. lia. }
  rewrite Hm. Z.to_euclidean_division_equations. lia.
Qed.

Lemma pwm_middle_between_feedback :
  FEEDBACK_PWM_MIN <= FEEDBACK_PWM_MIDDLE <= FEEDBACK_PWM_MAX
  /\ Z.abs ((FEEDBACK_PWM_MAX - FEEDBACK_PWM_MIDDLE)
            - (FEEDBACK_PWM_MIDDLE - FEEDBACK_PWM_MIN)) <= 1.
Proof.
  apply (pwm_middle_between FEEDBACK_PWM_MIN FEEDBACK_PWM_MAX);
    [reflexivity | reflexivity | reflexivity | vm_compute; discriminate].
Defined.

(** The condition on the sum is needed: two bounds of 20000 each fit [int],
    their sum does not, and the macro leaves the bounds. *)
Lemma pwm_middle_wraps : pwm_middle 20000 20000 = -12768.
Proof. reflexivity. Qed.

(** X2.  Adding the range macro to the lower bound gives back the upper bound,
    and taking it off the upper bound gives back the lower one, for all
    bounds that fit [int], even when their difference does not. *)
Theorem pwm_range_restores_bounds (lo hi : Z) :
  CInt.in_range lo = true ->
  CInt.in_range hi = true ->
  CInt.add lo (pwm_range lo hi) = hi
  /\ CInt.sub hi (pwm_range lo hi) = lo.
Proof.
  intros Hlo Hhi. unfold pwm_range, CInt.add, CInt.sub. split.
  - rewrite wrap_add_wrap. replace (lo + (hi - lo)) with hi by ring.
    now apply in_range_exact.
  - unfold Z.sub at 1.
    assert (E : CInt.wrap (hi + - CInt.wrap (hi - lo)) = CInt.wrap lo).
    { unfold CInt.wrap.
      change CInt.half_modulus with 32768. change CInt.modulus with 65536.
      f_equal.
      pose proof (Z.div_mod (hi - lo + 32768) 65536 ltac:(lia)) as Hd.
      replace (hi + - ((hi - lo + 32768) mod 65536 - 32768) + 32768)
        with (lo + 32768 + ((hi - lo + 32768) / 65536) * 65536) by lia.
      apply Z_mod_plus_full. }
    rewrite E. now apply in_range_exact.
Qed.

Lemma pwm_range_restores_command_bounds :
  CInt.add COMMAND_PWM_MIN COMMAND_PWM_RANGE = COMMAND_PWM_MAX
  /\ CInt.sub COMMAND_PWM_MAX COMMAND_PWM_RANGE = COMMAND_PWM_MIN.
Proof.
  apply (pwm_range_restores_bounds COMMAND_PWM_MIN COMMAND_PWM_MAX);
    reflexivity.
Defined.

(** The bounds themselves may be far apart: the difference of -30000 and
    30000 wraps, and the two bounds are still restored. *)
Lemma pwm_range_wraps :
  pwm_range (-30000) 30000 = -5536
  /\ CInt.add (-30000) (pwm_range (-30000) 30000) = 30000.
Proof. split; reflexivity. Qed.

(** * The bands as data *)

(** X7.  A PWM value lies in none of the three PWM intervals of the header
    exactly when it is below the command interval, in one of the two gaps
    that separate the intervals, or above the clockwise band. *)
Theorem pwm_outside_every_interval (p : Z) :
  pwm_intervals_of servo_04 p = []
  <-> (p < COMMAND_PWM_MIN
       \/ COMMAND_PWM_MAX < p < ANTICLOCKWISE_PWM_MAX
       \/ ANTICLOCKWISE_PWM_MIN < p < CLOCKWISE_PWM_MIN
       \/ CLOCKWISE_PWM_MAX < p).
Proof.
  pose proof (f_equal commandPwmMin servo_04_values) as H1.
  pose proof (f_equal commandPwmMax servo_04_values) as H2.
  pose proof (f_equal anticlockwisePwmMin servo_04_values) as H3.
  pose proof (f_equal anticlockwisePwmMax servo_04_values) as H4.
  pose proof (f_equal clockwisePwmMin servo_04_values) as H5.
  pose proof (f_equal clockwisePwmMax servo_04_values) as H6.
  simpl in H1, H2, H3, H4, H5, H6. rewrite H1, H2, H3, H4, H5, H6.
  unfold pwm_intervals_of, pwm_intervals. simpl filter.
  rewrite !in_pwm_interval_servo_04.
  destruct (Z.leb_spec 491 p), (Z.leb_spec p 1495),
    (Z.leb_spec 1800 p), (Z.leb_spec p 1891),
    (Z.leb_spec 2094 p), (Z.leb_spec p 2194);
    simpl; split; intros Hside; try discriminate Hside; try reflexivity; lia.
Qed.

Lemma pwm_outside_every_interval_2000 :
  pwm_intervals_of servo_04 2000 = []
  /\ ANTICLOCKWISE_PWM_MIN < 2000 < CLOCKWISE_PWM_MIN.
Proof.
  assert (H : ANTICLOCKWISE_PWM_MIN < 2000 < CLOCKWISE_PWM_MIN)
    by (split; reflexivity).
  split; [|exact H].
  exact (proj2 (pwm_outside_every_interval 2000) (or_intror (or_intror (or_introl H)))).
Defined.

(** X8.  Over the four calibration points of the two bands the PWM grows with
    the speed: of two points, the one with the lower speed has the lower
    PWM.  The reversed naming of the anticlockwise bounds keeps the pairing
    increasing across both bands. *)
Theorem calibration_points_increasing (p q : Z * Z) :
  In p calibration_points ->
  In q calibration_points ->
  (fst p < fst q <-> snd p < snd q).
Proof.
  intros Hp Hq.
  pose proof (f_equal anticlockwisePwmMin servo_04_values) as H1.
  pose proof (f_equal anticlockwisePwmMax servo_04_values) as H2.
  pose proof (f_equal anticlockwiseSpeedMin servo_04_values) as H3.
  pose proof (f_equal anticlockwiseSpeedMax servo_04_values) as H4.
  pose proof (f_equal clockwisePwmMin servo_04_values) as H5.
  pose proof (f_equal clockwisePwmMax servo_04_values) as H6.
  pose proof (f_equal clockwiseSpeedMin servo_04_values) as H7.
  pose proof (f_equal clockwiseSpeedMax servo_04_values) as H8.
  simpl in H1, H2, H3, H4, H5, H6, H7, H8.
  unfold calibration_points in Hp, Hq.
  in_cases Hp; in_cases Hq; subst p q; simpl fst; simpl snd; lia.
Qed.

Lemma calibration_points_increasing_across_bands :
  (ANTICLOCKWISE_SPEED_MIN < CLOCKWISE_SPEED_MIN
   <-> ANTICLOCKWISE_PWM_MIN < CLOCKWISE_PWM_MIN).
Proof.
  apply (calibration_points_increasing
           (ANTICLOCKWISE_SPEED_MIN, ANTICLOCKWISE_PWM_MIN)
           (CLOCKWISE_SPEED_MIN, CLOCKWISE_PWM_MIN));
    simpl; tauto.
Defined.

(** ** Resolution of the bands *)


Lemma Z_range_In (a : Z) (n : nat) (x : Z) :
  In x (Z_range a n) <-> a <= x < a + Z.of_nat n.
Proof.
  unfold Z_range. rewrite in_map_iff. split.
  - intros [k [<- Hk]]. apply in_seq in Hk. lia.
  - intros Hx. exists (Z.to_nat (x - a)). split; [lia|].
    apply in_seq. lia.
Qed.

Lemma Z_range_length (a : Z) (n : nat) : List.length (Z_range a n) = n.
Proof. unfold Z_range. now rewrite length_map, length_seq. Qed.

Lemma Z_range_NoDup (a : Z) (n : nat) : NoDup (Z_range a n).
Proof.
  unfold Z_range. generalize 0%nat as start.
  induction n as [|n IH]; intros start; simpl; constructor.
  - rewrite in_map_iff. intros [k [Hk Hin]]. apply in_seq in Hin. lia.
  - apply IH.
Qed.

(** A map that repeats a value on a list without repetition takes the same
    value at two different elements. *)
Lemma map_repeats (f : Z -> Z) (l : list Z) :
  NoDup l -> ~ NoDup (map f l) ->
  exists x y : Z, In x l /\ In y l /\ x <> y /\ f x = f y.
Proof.
  induction l as [|x l IH]; intros Hl Hmap.
  - exfalso. apply Hmap. constructor.
  - inversion Hl as [|? ? Hx Hl']; subst.
    destruct (in_dec Z.eq_dec (f x) (map f l)) as [Hin|Hout].
    + apply in_map_iff in Hin as [y [Hy Hin]].
      exists x, y. repeat split; [now left | now right | | now symmetry].
      intros ->. contradiction.
    + destruct IH as [u [v [Hu [Hv [Hne Heq]]]]]; [assumption | |].
      * intros Hnd. apply Hmap. simpl. now constructor.
      * exists u, v. repeat split; [now right | now right | assumption..].
Qed.

(** Pigeonhole on integer intervals: a map from a longer interval into a
    shorter one takes some value twice. *)
Lemma interval_pigeonhole (f : Z -> Z) (a b c d : Z) :
  c <= d -> d - c < b - a ->
  (forall x, a <= x <= b -> c <= f x <= d) ->
  exists x y : Z, a <= x /\ x < y /\ y <= b /\ f x = f y.
Proof.
  intros Hcd Hlen Hf.
  set (l := Z_range a (Z.to_nat (b - a + 1))).
  set (l' := Z_range c (Z.to_nat (d - c + 1))).
  assert (Hincl : incl (map f l) l').
  { intros y Hy. apply in_map_iff in Hy as [x [<- Hx]].
    apply Z_range_In in Hx. apply Z_range_In.
    specialize (Hf x ltac:(lia)). lia. }
  assert (Hrep : ~ NoDup (map f l)).
  { intros Hnd. pose proof (NoDup_incl_length Hnd Hincl) as Hle.
    unfold l, l' in Hle. rewrite length_map, !Z_range_length in Hle. lia. }
  destruct (map_repeats f l (Z_range_NoDup _ _) Hrep)
    as [x [y [Hx [Hy [Hne Heq]]]]].
  apply Z_range_In in Hx, Hy.
  destruct (Z_lt_le_dec x y) as [Hlt|Hge].
  - exists x, y. repeat split; [lia | assumption | lia | assumption].
  - exists y, x. repeat split; [lia | lia | lia | now symmetry].
Qed.

(** X9.  Each band holds more integer speeds than integer PWM values (154 for
    101 clockwise, 149 for 92 anticlockwise): whatever conversion sends the
    speeds of a band to PWM values of the same band, two different speeds
    get the same PWM. *)
Theorem band_speeds_share_pwm (f : Z -> Z) :
  ((forall s : Z,
       CLOCKWISE_SPEED_MIN <= s <= CLOCKWISE_SPEED_MAX ->
       CLOCKWISE_PWM_MIN <= f s <= CLOCKWISE_PWM_MAX) ->
   exists s1 s2 : Z,
     CLOCKWISE_SPEED_MIN <= s1 /\ s1 < s2 /\ s2 <= CLOCKWISE_SPEED_MAX
     /\ f s1 = f s2)
  /\ ((forall s : Z,
          ANTICLOCKWISE_SPEED_MAX <= s <= ANTICLOCKWISE_SPEED_MIN ->
          ANTICLOCKWISE_PWM_MAX <= f s <= ANTICLOCKWISE_PWM_MIN) ->
      exists s1 s2 : Z,
        ANTICLOCKWISE_SPEED_MAX <= s1 /\ s1 < s2
        /\ s2 <= ANTICLOCKWISE_SPEED_MIN
        /\ f s1 = f s2).
Proof.
  split; apply interval_pigeonhole; vm_compute; congruence.
Qed.

Lemma band_speeds_share_pwm_constant :
  (exists s1 s2 : Z,
      CLOCKWISE_SPEED_MIN <= s1 /\ s1 < s2 /\ s2 <= CLOCKWISE_SPEED_MAX
      /\ (fun _ : Z => CLOCKWISE_PWM_MIN) s1
         = (fun _ : Z => CLOCKWISE_PWM_MIN) s2).
Proof.
  apply (proj1 (band_speeds_share_pwm (fun _ => CLOCKWISE_PWM_MIN))).
  intros s _. split; vm_compute; discriminate.
Defined.
